(** * Voice input and dictation glue of the ChatKit starter app

    A shallow embedding of the browser-facing logic of the repository:

    - [JS]: the string primitives of the host language the code relies on
      ([slice], [trim], [toLowerCase], [includes], [split], truthiness);
    - [DictationPatch]: the inline script of [src/app/layout.tsx]
      ([handleInput] and its debounced callback);
    - [useSpeechRecognition]: the hook (its listeners, both revisions of
      the error listener, the guarded [startListening], [stopListening]);
    - [VoiceInputButton]: the component (delta forwarding effect,
      [handleClick], rendering) and the event loop driving hook and button;
    - [Positioning]: [findWrapperAndPositionButton] and [positionStyle].

    Strings are Stdlib strings: a character stands for one code unit, and
    the development covers the code units below 256. *)

From Stdlib Require Import Strings.String Strings.Ascii Numbers.DecimalString.
From Stdlib Require Import Lists.List Bool.Bool Arith.Arith micromega.Lia.
Import ListNotations.

Open Scope string_scope.
Open Scope bool_scope.
Open Scope nat_scope.

(* ------------------------------------------------------------------ *)
(** ** String primitives of the host language *)

Module JS.

(** A string used as a condition: the empty string is falsy. *)
Definition truthy (s : string) : bool := negb (String.eqb s "").

(** [s.slice(start)] for a non-negative [start]: the code units from
    [start] on, the empty string when [start] is past the end. *)
Fixpoint slice (start : nat) (s : string) : string :=
  match start, s with
  | O, _ => s
  | S _, EmptyString => EmptyString
  | S n, String _ s' => slice n s'
  end.

(** White space and line terminators below 256: TAB, LF, VT, FF, CR,
    SPACE and NO-BREAK SPACE. *)
Definition isWhiteSpace (c : ascii) : bool :=
  let n := nat_of_ascii c in
  ((9 <=? n) && (n <=? 13)) || (n =? 32) || (n =? 160).

Fixpoint trimStart (s : string) : string :=
  match s with
  | EmptyString => EmptyString
  | String c s' => if isWhiteSpace c then trimStart s' else s
  end.

Fixpoint trimEnd (s : string) : string :=
  match s with
  | EmptyString => EmptyString
  | String c s' =>
      match trimEnd s' with
      | EmptyString => if isWhiteSpace c then EmptyString else String c EmptyString
      | r => String c r
      end
  end.

(** [s.trim()]. *)
Definition trim (s : string) : string := trimStart (trimEnd s).

(** [s.toLowerCase()] on the code units below 256: the ASCII capitals and
    the Latin-1 capitals (all of 192..222 but the multiplication sign). *)
Definition lowerChar (c : ascii) : ascii :=
  let n := nat_of_ascii c in
  if ((65 <=? n) && (n <=? 90))
     || ((192 <=? n) && (n <=? 222) && negb (n =? 215))
  then ascii_of_nat (n + 32) else c.

Fixpoint toLowerCase (s : string) : string :=
  match s with
  | EmptyString => EmptyString
  | String c s' => String (lowerChar c) (toLowerCase s')
  end.

(** [s.includes(pat)]: [pat] occurs in [s] at some position. *)
Fixpoint includes (pat s : string) : bool :=
  prefix pat s ||
  match s with
  | EmptyString => false
  | String _ s' => includes pat s'
  end.

(** [s.split(sep)] for a non-empty [sep]: scan from the left, cut at each
    occurrence of [sep] and resume right after it.  [skip] counts the code
    units of a matched separator still to be passed over, [cur] is the
    piece being collected. *)
Fixpoint splitFrom (sep : string) (skip : nat) (cur s : string) : list string :=
  match s with
  | EmptyString => [cur]
  | String c s' =>
      match skip with
      | S k => splitFrom sep k cur s'
      | O =>
          if prefix sep s
          then cur :: splitFrom sep (String.length sep - 1) EmptyString s'
          else splitFrom sep O (cur ++ String c EmptyString) s'
      end
  end.

(** With the empty separator the string is cut into its code units. *)
Fixpoint codeUnits (s : string) : list string :=
  match s with
  | EmptyString => []
  | String c s' => String c EmptyString :: codeUnits s'
  end.

Definition split (sep s : string) : list string :=
  match sep with
  | EmptyString => codeUnits s
  | _ => splitFrom sep O EmptyString s
  end.

(** [a || b] on strings: the first operand when truthy, else the second. *)
Definition orElse (a b : string) : string := if truthy a then a else b.

(** No code unit but white space. *)
Fixpoint allWhiteSpace (s : string) : bool :=
  match s with
  | EmptyString => true
  | String c s' => isWhiteSpace c && allWhiteSpace s'
  end.

End JS.

(* ------------------------------------------------------------------ *)
(** ** The dictation dedup patch of [src/app/layout.tsx] *)

Module DictationPatch.

(** The properties of an event target the script reads and writes.
    [value] is absent ([undefined]) on elements that are no form field. *)
Record Target := mkTarget {
  tagName : string;
  contentEditable : string;
  value : option string;
  textContent : string;
  innerText : string
}.

(** State of the closure: [lastInputValue], and whether the timer held in
    [debounceTimer] is still pending. *)
Record Patch := mkPatch {
  lastInputValue : string;
  debounceTimer : bool
}.

Definition initial : Patch := mkPatch "" false.

Definition isField (t : Target) : bool :=
  String.eqb (tagName t) "INPUT" || String.eqb (tagName t) "TEXTAREA".

(** The guard at the head of [handleInput]: the event is ignored when
    there is no target or the target is not editable. *)
Definition ignored (e : option Target) : bool :=
  match e with
  | None => true
  | Some t => negb (isField t) && negb (String.eqb (contentEditable t) "true")
  end.

(** [target.value || target.textContent || target.innerText || ''] *)
Definition readValue (t : Target) : string :=
  JS.orElse (match value t with Some v => v | None => "" end)
            (JS.orElse (textContent t) (JS.orElse (innerText t) "")).

(** The two branches that store [cleanValue] into the target. *)
Definition writeValue (t : Target) (cleanValue : string) : Target :=
  if isField t
  then mkTarget (tagName t) (contentEditable t) (Some cleanValue)
                (textContent t) (innerText t)
  else mkTarget (tagName t) (contentEditable t) (value t)
                cleanValue cleanValue.

(** [handleInput]: an accepted event clears the pending timer and arms a
    new one, so exactly one callback is pending afterwards. *)
Definition handleInput (st : Patch) (e : option Target) : Patch :=
  if ignored e then st else mkPatch (lastInputValue st) true.

(** The test of the inner [if]: the new part doubled occurs in the value,
    or splitting the value on the new part yields more than two pieces. *)
Definition duplicated (newPart finalValue : string) : bool :=
  let duplicatePattern := newPart ++ newPart in
  JS.includes duplicatePattern finalValue
  || ((0 <? String.length newPart) && (2 <? List.length (JS.split newPart finalValue))).

(** The callback run 50ms after the last accepted event, on the target as
    it is then; its own timer has fired and is no longer pending.
    Returns the closure state, the target after the possible write, and
    the number of synthetic [input] events dispatched.  [dispatchEvent]
    runs the listeners at once: the synthetic event reaches [handleInput]
    on the rewritten target, which arms a new timer, before
    [lastInputValue] is assigned. *)
Definition debounced (st : Patch) (target : Target) : Patch * Target * nat :=
  let finalValue := readValue target in
  if JS.truthy (lastInputValue st)
     && (String.length (lastInputValue st) <? String.length finalValue)
  then
    let newPart := JS.slice (String.length (lastInputValue st)) finalValue in
    if duplicated newPart finalValue
    then
      let cleanValue := lastInputValue st ++ newPart in
      let rewritten := writeValue target cleanValue in
      let reentered :=
        handleInput (mkPatch (lastInputValue st) false) (Some rewritten) in
      (mkPatch cleanValue (debounceTimer reentered), rewritten, 1)
    else (mkPatch finalValue false, target, 0)
  else (mkPatch finalValue false, target, 0).

(** The page stays quiet: the pending callback runs, then the one its
    synthetic event has armed, and so on, [fuel] callbacks at most.  The
    synthetic events dispatched are added up. *)
Fixpoint settle (fuel : nat) (st : Patch) (t : Target) : Patch * Target * nat :=
  match fuel with
  | O => (st, t, 0)
  | S fuel' =>
      if debounceTimer st
      then
        let '(st1, t1, n1) := debounced st t in
        let '(st2, t2, n2) := settle fuel' st1 t1 in
        (st2, t2, n1 + n2)
      else (st, t, 0)
  end.

(** The field takes the value [v]. *)
Definition typed (t : Target) (v : string) : Target :=
  if isField t
  then mkTarget (tagName t) (contentEditable t) (Some v)
                (textContent t) (innerText t)
  else mkTarget (tagName t) (contentEditable t) (value t) v v.

(** The field takes the value [v], the [input] event is observed on it,
    and the page stays quiet until no timer is pending: two callbacks
    are enough for that ([settle_stable]). *)
Definition inputThenQuiet (st : Patch) (t : Target) (v : string)
  : Patch * Target * nat :=
  let t1 := typed t v in
  let st1 := handleInput st (Some t1) in
  settle 2 st1 t1.

Definition textarea : Target := mkTarget "TEXTAREA" "inherit" (Some "") "" "".

(** A target that is a form field holding [v]. *)
Definition fieldHolding (v : string) : Target := typed textarea v.

(** A target whose text is read where the callback writes it: a form
    field, or an element without a [value] property. *)
Definition plain (t : Target) : Prop := isField t = true \/ value t = None.

(** The values [vs] are typed one after the other, each followed by its
    quiet period. *)
Fixpoint typing (st : Patch) (t : Target) (vs : list string) : Patch * Target :=
  match vs with
  | [] => (st, t)
  | v :: vs' =>
      let '(st1, t1, _) := inputThenQuiet st t v in
      typing st1 t1 vs'
  end.

(** Each value is not empty and extends the one before it, [prev] being
    the value before the first. *)
Fixpoint extending (prev : string) (vs : list string) : Prop :=
  match vs with
  | [] => True
  | v :: vs' => v <> "" /\ prefix prev v = true /\ extending v vs'
  end.

End DictationPatch.

(* ------------------------------------------------------------------ *)
(** ** The hook [useSpeechRecognition] *)

Module useSpeechRecognition.

(** The two global constructors the hook probes: present or not. *)
Record Window := mkWindow {
  SpeechRecognition : bool;
  webkitSpeechRecognition : bool
}.

(** The synchronous capability probe. *)
Definition isSupported (w : Window) : bool :=
  SpeechRecognition w || webkitSpeechRecognition w.

(** The three [useState] cells and the two refs.  [recognitionRef] tells
    whether the ref holds a recognition object. *)
Record Session := mkSession {
  isListening : bool;
  transcript : string;
  error : option string;
  recognitionRef : bool;
  isStartingRef : bool
}.

Definition initialSession : Session := mkSession false "" None false false.

Definition setIsListening (v : bool) (s : Session) : Session :=
  mkSession v (transcript s) (error s) (recognitionRef s) (isStartingRef s).
Definition setTranscript (v : string) (s : Session) : Session :=
  mkSession (isListening s) v (error s) (recognitionRef s) (isStartingRef s).
Definition setError (v : option string) (s : Session) : Session :=
  mkSession (isListening s) (transcript s) v (recognitionRef s) (isStartingRef s).
Definition setRecognitionRef (v : bool) (s : Session) : Session :=
  mkSession (isListening s) (transcript s) (error s) v (isStartingRef s).
Definition setIsStartingRef (v : bool) (s : Session) : Session :=
  mkSession (isListening s) (transcript s) (error s) (recognitionRef s) v.

(** What a hook function asks of the platform: a call of the native
    [stop] or [start], or a timer armed for the delayed start (50ms) or
    for the retry (100ms). *)
Inductive Request := NativeStop | NativeStart | ArmStart | ArmRetry.

(** The mount effect: without a constructor it reports the missing
    capability and creates nothing; otherwise the recognition object is
    created, its listeners attached, and stored in the ref. *)
Definition mount (w : Window) (s : Session) : Session :=
  if negb (isSupported w)
  then setError (Some "Speech recognition is not supported in this browser") s
  else setRecognitionRef true s.

(** One entry of [event.results]: its [isFinal] flag and the transcript
    of its first alternative. *)
Record Result := mkResult {
  isFinal : bool;
  alternative : string
}.

Record ResultEvent := mkResultEvent {
  resultIndex : nat;
  results : list Result
}.

(** The [for] loop of the [result] listener over the entries still to
    visit, with its two accumulators. *)
Fixpoint scanResults (rs : list Result) (finalTranscript : string)
    (hasFinalResults : bool) : string * bool :=
  match rs with
  | [] => (finalTranscript, hasFinalResults)
  | r :: rs' =>
      if isFinal r
      then scanResults rs' (finalTranscript ++ alternative r ++ " ") true
      else scanResults rs' finalTranscript hasFinalResults
  end.

Definition finalTranscriptOf (ev : ResultEvent) : string * bool :=
  scanResults (skipn (resultIndex ev) (results ev)) "" false.

(** The [result] listener. *)
Definition onResult (ev : ResultEvent) (s : Session) : Session :=
  let '(finalTranscript, hasFinalResults) := finalTranscriptOf ev in
  if hasFinalResults && JS.truthy (JS.trim finalTranscript)
  then setTranscript (JS.trim (transcript s ++ " " ++ finalTranscript)) s
  else s.

(** The [error] listener. *)
Definition onError (code : string) (s : Session) : Session :=
  let errorType := JS.toLowerCase code in
  if String.eqb errorType "aborted" || JS.includes "aborted" errorType
  then setError None (setIsStartingRef false (setIsListening false s))
  else if String.eqb errorType "no-speech" || String.eqb errorType "audio-capture"
  then setError None (setIsStartingRef false (setIsListening false s))
  else setIsStartingRef false (setIsListening false
         (setError (Some ("Speech recognition error: " ++ code)) s)).

(** The [error] listener of the earlier revision of the hook. *)
Definition onErrorV1 (code : string) (s : Session) : Session :=
  setIsListening false (setError (Some ("Speech recognition error: " ++ code)) s).

(** The [result] listener of the earlier revision of the hook: the same
    loop (its interim accumulator is never read), and an update of the
    transcript on every event, without a separator. *)
Definition onResultV1 (ev : ResultEvent) (s : Session) : Session :=
  let finalTranscript := fst (finalTranscriptOf ev) in
  setTranscript (JS.trim (transcript s ++ finalTranscript)) s.

(** The [end] listener. *)
Definition onEnd (s : Session) : Session :=
  setIsStartingRef false (setIsListening false s).

(** [startListening], up to the point where the timer is armed. *)
Definition startListening (s : Session) : Session * list Request :=
  if negb (recognitionRef s)
  then (setError (Some "Speech recognition not available") s, [])
  else if isStartingRef s || isListening s
  then (s, [])
  else (s, [NativeStop; ArmStart]).

Definition failedToStart (s : Session) : Session :=
  setIsStartingRef false (setIsListening false
    (setError (Some "Failed to start speech recognition") s)).

(** The callback of the 50ms timer.  [thrown] is what the native [start]
    does when called: [None] when it returns, [Some m] when it throws an
    exception whose message is [m]. *)
Definition delayedStart (thrown : option string) (s : Session)
  : Session * list Request :=
  if negb (recognitionRef s) || isStartingRef s
  then (s, [])
  else
    let s1 := setIsListening true (setIsStartingRef true
                (setError None (setTranscript "" s))) in
    match thrown with
    | None => (s1, [NativeStart])
    | Some errorMessage =>
        let isAborted := JS.includes "aborted" (JS.toLowerCase errorMessage) in
        if isAborted
        then (s1, [NativeStart; ArmRetry])
        else (failedToStart s1, [NativeStart])
    end.

(** The callback of the 100ms retry timer. *)
Definition retryStart (thrown : option string) (s : Session)
  : Session * list Request :=
  if recognitionRef s && negb (isStartingRef s)
  then
    match thrown with
    | None => (s, [NativeStart])
    | Some retryMessage =>
        if negb (JS.includes "aborted" (JS.toLowerCase retryMessage))
        then (failedToStart s, [NativeStart])
        else (setError None (setIsStartingRef false (setIsListening false s)),
              [NativeStart])
    end
  else (s, []).

(** [stopListening]: an exception of the native [stop] is swallowed. *)
Definition stopListening (s : Session) : Session * list Request :=
  (setIsStartingRef false (setIsListening false s),
   if recognitionRef s then [NativeStop] else []).

Definition clearTranscript (s : Session) : Session := setTranscript "" s.




(** The codes the [error] listener passes over in silence: those whose
    lower-case form contains "aborted" or is "no-speech" or
    "audio-capture". *)
Definition silenced (code : string) : bool :=
  let errorType := JS.toLowerCase code in
  JS.includes "aborted" errorType
  || String.eqb errorType "no-speech"
  || String.eqb errorType "audio-capture".

(** A session that listens or is starting has its recognition object. *)
Definition sound (s : Session) : Prop :=
  recognitionRef s = true \/ (isListening s = false /\ isStartingRef s = false).

(** What every session the component reaches satisfies: it is [sound],
    the starting flag and the listening flag agree, no message is shown
    while listening, and the transcript is trimmed. *)
Definition coherent (s : Session) : Prop :=
  sound s /\
  isStartingRef s = isListening s /\
  (isListening s = false \/ error s = None) /\
  JS.trim (transcript s) = transcript s.

End useSpeechRecognition.

(* ------------------------------------------------------------------ *)
(** ** The component [VoiceInputButton] *)

Module VoiceInputButton.
Import useSpeechRecognition.

(** The hook's session, the ref [lastTranscriptRef], and the timers of
    [startListening] that are armed and have not fired yet. *)
Record Button := mkButton {
  session : Session;
  lastTranscriptRef : string;
  startTimers : nat;
  retryTimers : nat
}.

(** What the component does to the outside: a platform request of the
    hook, or a call [onTranscriptUpdate(newPart)]. *)
Inductive Output :=
| Platform (r : Request)
| Update (newPart : string).

(** The body of the forwarding effect, from the current [transcript] and
    the content of [lastTranscriptRef]: the calls of the callback and the
    new content of the ref. *)
Definition forwardDelta (transcript lastRef : string) : list string * string :=
  if JS.truthy transcript && negb (String.eqb transcript lastRef)
  then
    let newPart := JS.trim (JS.slice (String.length lastRef) transcript) in
    if JS.truthy newPart
    then ([newPart], transcript)
    else ([], lastRef)
  else ([], lastRef).

(** [handleClick]. *)
Definition handleClick (b : Button) : Button * list Request :=
  if isListening (session b)
  then
    let '(s, rq) := stopListening (session b) in
    (mkButton s "" (startTimers b) (retryTimers b), rq)
  else
    let '(s, rq) := startListening (session b) in
    (mkButton s "" (startTimers b) (retryTimers b), rq).

(** What is rendered: nothing, or the button with its [disabled]
    attribute and its listening look. *)
Inductive View :=
| Nothing
| ButtonView (disabled listening : bool).

(** The first revision of the component returns [null] when the
    capability is missing. *)
Definition renderV1 (w : Window) (b : Button) : View :=
  if negb (isSupported w) then Nothing
  else ButtonView false (isListening (session b)).

(** The second revision always renders the button, disabled when the
    capability is missing. *)
Definition renderV2 (w : Window) (b : Button) : View :=
  ButtonView (negb (isSupported w)) (isListening (session b)).

(** A control the user can activate: a button that is not disabled. *)
Definition interactive (v : View) : bool :=
  match v with
  | Nothing => false
  | ButtonView disabled _ => negb disabled
  end.

(** What can happen to a mounted component. *)
Inductive Event :=
| Click
| RecResult (ev : ResultEvent)
| RecError (code : string)
| RecEnd
| StartTimerFires (thrown : option string)
| RetryTimerFires (thrown : option string)
| CallbackChanged.

Definition countArmed (r : Request) (rq : list Request) : nat :=
  List.length (filter (fun x => match x, r with
                                | ArmStart, ArmStart => true
                                | ArmRetry, ArmRetry => true
                                | _, _ => false
                                end) rq).

(** The timers a handler has armed are added to the pending ones. *)
Definition armed (p : Button * list Request) : Button * list Request :=
  let '(b, rq) := p in
  (mkButton (session b) (lastTranscriptRef b)
            (startTimers b + countArmed ArmStart rq)
            (retryTimers b + countArmed ArmRetry rq),
   rq).

Definition withSession (b : Button) (p : Session * list Request)
  : Button * list Request :=
  armed (mkButton (fst p) (lastTranscriptRef b) (startTimers b) (retryTimers b),
         snd p).

(** The handler an event reaches.  A click reaches [handleClick] only
    through a button that is rendered and not disabled; the recognition
    events reach their listeners only when the mount effect has created
    the object they are attached to; a timer fires only when armed. *)
Definition handle (w : Window) (b : Button) (e : Event) : Button * list Request :=
  match e with
  | Click =>
      if interactive (renderV2 w b)
      then armed (handleClick b)
      else (b, [])
  | RecResult ev =>
      if recognitionRef (session b)
      then withSession b (onResult ev (session b), [])
      else (b, [])
  | RecError code =>
      if recognitionRef (session b)
      then withSession b (onError code (session b), [])
      else (b, [])
  | RecEnd =>
      if recognitionRef (session b)
      then withSession b (onEnd (session b), [])
      else (b, [])
  | StartTimerFires thrown =>
      match startTimers b with
      | O => (b, [])
      | S n =>
          withSession (mkButton (session b) (lastTranscriptRef b) n (retryTimers b))
                      (delayedStart thrown (session b))
      end
  | RetryTimerFires thrown =>
      match retryTimers b with
      | O => (b, [])
      | S n =>
          withSession (mkButton (session b) (lastTranscriptRef b) (startTimers b) n)
                      (retryStart thrown (session b))
      end
  | CallbackChanged => (b, [])
  end.

(** The forwarding effect depends on [transcript] and on the callback:
    it runs after a render in which one of the two has changed. *)
Definition effectRuns (before after : Button) (e : Event) : bool :=
  negb (String.eqb (transcript (session before)) (transcript (session after)))
  || match e with CallbackChanged => true | _ => false end.

(** One event: its handler, then the forwarding effect when it runs. *)
Definition step (w : Window) (b : Button) (e : Event) : Button * list Output :=
  let '(b1, rq) := handle w b e in
  if effectRuns b b1 e
  then
    let '(calls, lastRef) :=
      forwardDelta (transcript (session b1)) (lastTranscriptRef b1) in
    (mkButton (session b1) lastRef (startTimers b1) (retryTimers b1),
     (map Platform rq ++ map Update calls)%list)
  else (b1, map Platform rq).

Fixpoint run (w : Window) (b : Button) (es : list Event) : Button * list Output :=
  match es with
  | [] => (b, [])
  | e :: es' =>
      let '(b1, out1) := step w b e in
      let '(b2, out2) := run w b1 es' in
      (b2, (out1 ++ out2)%list)
  end.

(** The component after its first render and mount effects. *)
Definition mounted (w : Window) : Button :=
  mkButton (mount w initialSession) "" 0 0.

(** The arguments the callback was called with, in order. *)
Fixpoint updates (out : list Output) : list string :=
  match out with
  | [] => []
  | Update d :: out' => d :: updates out'
  | Platform _ :: out' => updates out'
  end.

(** A result event carrying one finalized fragment. *)
Definition finalized (fragment : string) : Event :=
  RecResult (mkResultEvent 0 [mkResult true fragment]).

(** What the effect forwards is never blank. *)
Definition notBlank (d : string) : Prop := d <> "" /\ JS.allWhiteSpace d = false.

(** Without the capability nothing ever creates the recognition object,
    and the transcript stays empty. *)
Definition inert (b : Button) : Prop :=
  recognitionRef (session b) = false /\ transcript (session b) = "".

(** The finalized text one result event contributes, as the callback
    receives it: the finalized entries from [resultIndex] on, each
    followed by a space, concatenated and trimmed; nothing when that is
    empty. *)
Definition deliveredBy (ev : ResultEvent) : list string :=
  let '(finalTranscript, hasFinalResults) := finalTranscriptOf ev in
  if hasFinalResults && JS.truthy (JS.trim finalTranscript)
  then [JS.trim finalTranscript] else [].

(** The marker has caught up with a trimmed transcript, and the
    listeners are attached. *)
Definition inStep (b : Button) : Prop :=
  recognitionRef (session b) = true /\
  JS.trim (transcript (session b)) = transcript (session b) /\
  lastTranscriptRef b = transcript (session b).

(** A session that has just started: click, then the delayed start. *)
Definition started (w : Window) : Button :=
  fst (run w (mounted w) [Click; StartTimerFires None]).

(** The calls of the native [start] among the outputs. *)
Fixpoint nativeStarts (out : list Output) : nat :=
  match out with
  | [] => 0
  | Platform NativeStart :: out' => S (nativeStarts out')
  | _ :: out' => nativeStarts out'
  end.

End VoiceInputButton.

(* ------------------------------------------------------------------ *)
(** ** Positioning of the button over the chat widget *)

Module Positioning.

Section Numbers.

(** The numbers of the layout (the coordinates of bounding rectangles),
    with the two operations the code applies to them, the embedding of
    its integer constants and their rendering in a template string. *)
Variable num : Type.
Variables sub add : num -> num -> num.
Variable ofNat : nat -> num.
Variable toString : num -> string.

(** The two sides of a bounding rectangle the code reads. *)
Record Rect := mkRect {
  rectRight : num;
  rectBottom : num
}.

(** What [querySelector("openai-chatkit")] yields: the element, with its
    [shadowRoot] when it has one, which may hold a [.ck-wrapper]. *)
Record ChatKitElement := mkChatKit {
  shadowRoot : option (option Rect)
}.

(** The node held by [containerRef]: its rectangle and the answers to
    the two queries made on it. *)
Record Container := mkContainer {
  containerRect : Rect;
  wrapperChild : option Rect;
  chatKitChild : option ChatKitElement
}.

(** The page at one resolution attempt. *)
Record Dom := mkDom {
  containerRef : option Container;
  buttonRef : bool
}.

Record Position := mkPosition {
  right : num;
  bottom : num
}.

(** The search for the wrapper: in the container first, then in the
    shadow tree of the widget. *)
Definition findWrapper (d : Dom) : option Rect :=
  match containerRef d with
  | None => None
  | Some c =>
      match wrapperChild c with
      | Some r => Some r
      | None =>
          match chatKitChild c with
          | Some (mkChatKit (Some found)) => found
          | _ => None
          end
      end
  end.

(** The offset one attempt computes, when it finds all it needs. *)
Definition resolve (d : Dom) : option Position :=
  match findWrapper d, buttonRef d, containerRef d with
  | Some wrapperRect, true, Some c =>
      Some (mkPosition
              (add (sub (rectRight (containerRect c)) (rectRight wrapperRect))
                   (ofNat 190))
              (add (sub (rectBottom (containerRect c)) (rectBottom wrapperRect))
                   (ofNat 32)))
  | _, _, _ => None
  end.

(** [findWrapperAndPositionButton]: [setButtonPosition] is called only
    when the attempt succeeds. *)
Definition findWrapperAndPositionButton (buttonPosition : option Position)
    (d : Dom) : option Position :=
  match resolve d with
  | Some p => Some p
  | None => buttonPosition
  end.

(** The state [buttonPosition] after the attempts made on the pages
    [ds] (first call, mutations, resizes, polling), from its initial
    [null]. *)
Definition attempts (ds : list Dom) : option Position :=
  fold_left findWrapperAndPositionButton ds None.

(** [positionStyle]: the [right] and [bottom] of the button's style. *)
Definition positionStyle (buttonPosition : option Position) : string * string :=
  match buttonPosition with
  | Some p => (toString (right p) ++ "px", toString (bottom p) ++ "px")
  | None => ("210px", "32px")
  end.

End Numbers.

End Positioning.

(** *** Sample pages, with whole pixel coordinates *)

(** A page on which the wrapper sits in the shadow tree of the widget,
    with whole pixel coordinates. *)
Definition resolvedPage : Positioning.Dom nat :=
  Positioning.mkDom nat
    (Some (Positioning.mkContainer nat
             (Positioning.mkRect nat 800 600) None
             (Some (Positioning.mkChatKit nat
                      (Some (Some (Positioning.mkRect nat 780 590)))))))
    true.

(** A page on which the widget has not loaded yet. *)
Definition emptyPage : Positioning.Dom nat :=
  Positioning.mkDom nat
    (Some (Positioning.mkContainer nat (Positioning.mkRect nat 800 600) None None))
    true.

Definition showNat (n : nat) : string :=
  NilEmpty.string_of_uint (Nat.to_uint n).

(* ------------------------------------------------------------------ *)
(** ** Facts about the string primitives *)

Section StringFacts.
Import JS.

Lemma length_app (a b : string) :
  String.length (a ++ b) = String.length a + String.length b.
Proof. induction a as [|c a IH]; simpl; [reflexivity | now rewrite IH]. Qed.

Lemma app_empty_r (a : string) : a ++ "" = a.
Proof. induction a as [|c a IH]; simpl; [reflexivity | now rewrite IH]. Qed.

Lemma app_assoc (a b c : string) : (a ++ b) ++ c = a ++ b ++ c.
Proof. induction a as [|x a IH]; simpl; [reflexivity | now rewrite IH]. Qed.

Lemma truthy_true (s : string) : truthy s = true <-> s <> "".
Proof.
  unfold truthy. rewrite negb_true_iff. apply String.eqb_neq.
Qed.

Lemma truthy_false (s : string) : truthy s = false <-> s = "".
Proof.
  unfold truthy. rewrite negb_false_iff. apply String.eqb_eq.
Qed.

Lemma slice_0 (s : string) : slice 0 s = s.
Proof. destruct s; reflexivity. Qed.

Lemma length_slice (n : nat) (s : string) :
  String.length (slice n s) = String.length s - n.
Proof.
  revert s; induction n as [|n IH]; intros [|c s]; simpl; auto.
Qed.

Lemma slice_app (a b : string) : slice (String.length a) (a ++ b) = b.
Proof. induction a as [|c a IH]; simpl; [apply slice_0 | exact IH]. Qed.

Lemma prefix_slice (p v : string) :
  prefix p v = true -> p ++ slice (String.length p) v = v.
Proof.
  revert v; induction p as [|c p IH]; intros v H; simpl.
  - apply slice_0.
  - destruct v as [|d v]; simpl in H; [discriminate|].
    destruct (ascii_dec c d) as [->|]; [|discriminate].
    simpl. now rewrite IH.
Qed.

Lemma prefix_refl (p : string) : prefix p p = true.
Proof.
  induction p as [|c p IH]; simpl; [reflexivity|].
  destruct (ascii_dec c c); [exact IH | congruence].
Qed.

Lemma prefix_app (p s : string) : prefix p (p ++ s) = true.
Proof.
  induction p as [|c p IH]; simpl; [now destruct s|].
  destruct (ascii_dec c c); [exact IH | congruence].
Qed.

Lemma includes_app_r (pre code : string) : includes code (pre ++ code) = true.
Proof.
  induction pre as [|c pre IH].
  - change ("" ++ code) with code.
    destruct code as [|a code]; [reflexivity|].
    cbn [includes]. now rewrite prefix_refl.
  - change (String c pre ++ code) with (String c (pre ++ code)).
    cbn [includes]. rewrite IH. apply orb_true_r.
Qed.

End StringFacts.

(* ------------------------------------------------------------------ *)
(** ** The dedup patch *)

Section DictationFacts.
Import JS DictationPatch.

(** C1.  The echo of the spec's example is not collapsed: with "Bonjour"
    committed and the field holding "BonjourBonjour" after the quiet
    period, the duplicate test fires, and the value written back is
    "BonjourBonjour" again, not "Bonjour". *)
Theorem bonjour_echo_written_back_unchanged :
  duplicated (slice 7 "BonjourBonjour") "BonjourBonjour" = true /\
  debounced (mkPatch "Bonjour" true) (fieldHolding "BonjourBonjour")
  = (mkPatch "BonjourBonjour" true, fieldHolding "BonjourBonjour", 1) /\
  (let '(st1, t1, _) := inputThenQuiet initial textarea "Bonjour" in
   lastInputValue st1 = "Bonjour" /\
   let '(st2, t2, n) := inputThenQuiet st1 t1 "BonjourBonjour" in
   readValue t2 = "BonjourBonjour" /\ readValue t2 <> "Bonjour" /\ n = 1) /\
  (let '(st1, t1, _) := inputThenQuiet initial textarea "Hello" in
   let '(st2, t2, n) := inputThenQuiet st1 t1 "Hello world" in
   readValue t2 = "Hello world" /\ n = 0).
Proof.
  repeat split; try reflexivity. vm_compute. discriminate.
Qed.

End DictationFacts.

(* ------------------------------------------------------------------ *)
(** ** Facts about [trim] *)

Section TrimFacts.
Import JS.

Lemma trimStart_head (s : string) (c : ascii) (r : string) :
  trimStart s = String c r -> isWhiteSpace c = false.
Proof.
  induction s as [|d s IH]; simpl; [discriminate|].
  destruct (isWhiteSpace d) eqn:E; [exact IH|].
  intros H; injection H as <- _. exact E.
Qed.

Lemma trimStart_idem (s : string) : trimStart (trimStart s) = trimStart s.
Proof.
  induction s as [|d s IH]; simpl; [reflexivity|].
  destruct (isWhiteSpace d) eqn:E; [exact IH|].
  simpl. now rewrite E.
Qed.

Lemma trimEnd_cons (c : ascii) (s : string) :
  trimEnd s <> "" -> trimEnd (String c s) = String c (trimEnd s).
Proof.
  simpl. destruct (trimEnd s); [congruence | reflexivity].
Qed.

Lemma trimEnd_cons_empty (c : ascii) (s : string) :
  trimEnd s = "" ->
  trimEnd (String c s) = if isWhiteSpace c then "" else String c "".
Proof. simpl. now intros ->. Qed.

Lemma trimEnd_idem (s : string) : trimEnd (trimEnd s) = trimEnd s.
Proof.
  induction s as [|c s IH]; [reflexivity|].
  destruct (string_dec (trimEnd s) "") as [E|E].
  - rewrite (trimEnd_cons_empty c s E).
    destruct (isWhiteSpace c) eqn:W; [reflexivity|].
    simpl. now rewrite W.
  - rewrite (trimEnd_cons c s E).
    rewrite trimEnd_cons; [now rewrite IH | now rewrite IH].
Qed.

Lemma trimEnd_app (a b : string) :
  trimEnd b <> "" -> trimEnd (a ++ b) = a ++ trimEnd b.
Proof.
  intros Hb. induction a as [|c a IH]; [reflexivity|].
  change (String c a ++ b) with (String c (a ++ b)).
  rewrite trimEnd_cons; rewrite IH; [reflexivity|].
  destruct a; simpl; [exact Hb | discriminate].
Qed.

Lemma trimStart_trimEnd (s : string) :
  trimEnd (trimStart s) = trimStart (trimEnd s).
Proof.
  induction s as [|c s IH]; [reflexivity|].
  destruct (string_dec (trimEnd s) "") as [E|E].
  - rewrite (trimEnd_cons_empty c s E).
    cbn [trimStart]. destruct (isWhiteSpace c) eqn:W.
    + rewrite IH, E. reflexivity.
    + rewrite (trimEnd_cons_empty c s E), W. simpl. now rewrite W.
  - rewrite (trimEnd_cons c s E).
    cbn [trimStart]. destruct (isWhiteSpace c) eqn:W.
    + exact IH.
    + apply trimEnd_cons. exact E.
Qed.

Lemma trim_idem (s : string) : trim (trim s) = trim s.
Proof.
  unfold trim.
  rewrite (trimStart_trimEnd (trimEnd s)), trimEnd_idem.
  apply trimStart_idem.
Qed.

Lemma trim_nonempty_trimEnd (s : string) : trim s <> "" -> trimEnd s <> "".
Proof. unfold trim. intros H E. apply H. now rewrite E. Qed.

Lemma trim_white_cons (c : ascii) (s : string) :
  isWhiteSpace c = true -> trim (String c s) = trim s.
Proof.
  intros W. unfold trim.
  destruct (string_dec (trimEnd s) "") as [E|E].
  - rewrite (trimEnd_cons_empty c s E), W, E. reflexivity.
  - rewrite (trimEnd_cons c s E). simpl. now rewrite W.
Qed.

Lemma trimStart_app (a x : string) :
  a <> "" -> trimStart a = a -> trimStart (a ++ x) = a ++ x.
Proof.
  destruct a as [|c a]; [congruence|]. intros _ H.
  pose proof (trimStart_head _ _ _ H) as W.
  simpl. now rewrite W.
Qed.

Lemma trim_fixed_start (t : string) : trim t = t -> trimStart t = t.
Proof.
  intros H. rewrite <- H. unfold trim. apply trimStart_idem.
Qed.

(** A non-empty trimmed string is not made of white space only. *)
Lemma trimmed_not_blank (d : string) :
  trim d = d -> d <> "" -> allWhiteSpace d = false.
Proof.
  intros H Hd. apply trim_fixed_start in H.
  destruct d as [|c d]; [congruence|].
  simpl. now rewrite (trimStart_head _ _ _ H).
Qed.

(** Appending finalized text [g] that is not blank to a trimmed
    transcript [t], as the [result] listener does, and taking the trimmed
    part past [t], as the forwarding effect does, yields [trim g]. *)
Lemma append_then_slice (t g : string) :
  trim t = t -> trim g <> "" ->
  let t' := trim (t ++ " " ++ g) in
  trim t' = t' /\ t' <> t /\ t' <> "" /\
  trim (slice (String.length t) t') = trim g.
Proof.
  intros Ht Hg t'.
  pose proof (trim_nonempty_trimEnd g Hg) as Hge.
  assert (Hsp : trimEnd (" " ++ g) = " " ++ trimEnd g).
  { apply trimEnd_app. exact Hge. }
  assert (Hspne : trimEnd (" " ++ g) <> "") by (rewrite Hsp; discriminate).
  destruct (string_dec t "") as [->|Hne].
  - assert (E : t' = trim g).
    { subst t'. change ("" ++ " " ++ g) with (String " " g).
      apply trim_white_cons. reflexivity. }
    rewrite E. repeat split.
    + apply trim_idem.
    + exact Hg.
    + exact Hg.
    + simpl. apply trim_idem.
  - assert (E : t' = t ++ " " ++ trimEnd g).
    { subst t'. unfold trim at 1.
      rewrite (trimEnd_app t (" " ++ g) Hspne), Hsp.
      apply trimStart_app; [exact Hne | now apply trim_fixed_start]. }
    repeat split.
    + subst t'. apply trim_idem.
    + rewrite E. intros Heq.
      apply (f_equal String.length) in Heq.
      rewrite length_app in Heq. simpl in Heq. lia.
    + rewrite E. destruct t; [congruence | discriminate].
    + rewrite E, slice_app.
      change (" " ++ trimEnd g) with (String " " (trimEnd g)).
      rewrite trim_white_cons by reflexivity.
      unfold trim. now rewrite trimEnd_idem.
Qed.

End TrimFacts.

(* ------------------------------------------------------------------ *)
(** ** The recognition session *)

Section SessionFacts.
Import JS useSpeechRecognition.

Lemma aborted_test (errorType : string) :
  String.eqb errorType "aborted" || includes "aborted" errorType
  = includes "aborted" errorType.
Proof.
  destruct (String.eqb_spec errorType "aborted") as [->|]; reflexivity.
Qed.

(** The [error] listener on any string: it always clears the listening
    flag and the starting flag and keeps the transcript.  For a silenced
    code the message is reset to null; for every other code the message
    is the fixed prefix followed by the code, so it contains the code. *)
Lemma error_listener_policy (code : string) (s : Session) :
  let s' := onError code s in
  isListening s' = false /\ isStartingRef s' = false /\
  transcript s' = transcript s /\ recognitionRef s' = recognitionRef s /\
  match error s' with
  | None => silenced code = true
  | Some message =>
      silenced code = false /\
      message = "Speech recognition error: " ++ code /\
      includes code message = true
  end /\
  silenced "aborted" = true /\ silenced "no-speech" = true /\
  silenced "audio-capture" = true.
Proof.
  unfold onError, silenced; cbv zeta. rewrite aborted_test.
  destruct (includes "aborted" (toLowerCase code)); simpl.
  - repeat split; reflexivity.
  - destruct (String.eqb (toLowerCase code) "no-speech"
              || String.eqb (toLowerCase code) "audio-capture"); simpl.
    + repeat split; reflexivity.
    + repeat split; try reflexivity.
      apply (includes_app_r "Speech recognition error: " code).
Qed.


(** The earlier revision of the listener had no silent codes. *)
Lemma error_listener_v1_always_reports (code : string) (s : Session) :
  error (onErrorV1 code s) = Some ("Speech recognition error: " ++ code).
Proof. reflexivity. Qed.

End SessionFacts.

(* ------------------------------------------------------------------ *)
(** ** The toggle button *)

Section ToggleFacts.
Import JS useSpeechRecognition VoiceInputButton.

Lemma updates_app (a b : list Output) :
  updates (a ++ b) = (updates a ++ updates b)%list.
Proof.
  induction a as [|[r|d] a IH]; simpl; [reflexivity | exact IH | now rewrite IH].
Qed.

Lemma updates_platform (rq : list Request) : updates (map Platform rq) = [].
Proof. induction rq; simpl; auto. Qed.

Lemma updates_update (calls : list string) : updates (map Update calls) = calls.
Proof. induction calls as [|d calls IH]; simpl; [reflexivity | now rewrite IH]. Qed.

Lemma forwardDelta_cases (t lastRef : string) :
  let newPart := trim (slice (String.length lastRef) t) in
  (forwardDelta t lastRef = ([newPart], t) /\ notBlank newPart)
  \/ forwardDelta t lastRef = ([], lastRef).
Proof.
  intros newPart. unfold forwardDelta.
  destruct (truthy t && negb (String.eqb t lastRef)); [|now right].
  fold newPart. destruct (truthy newPart) eqn:E; [|now right].
  left. split; [reflexivity|]. apply truthy_true in E.
  split; [exact E|]. apply trimmed_not_blank; [apply trim_idem | exact E].
Qed.

Lemma step_updates (w : Window) (b : Button) (e : Event) :
  Forall notBlank (updates (snd (step w b e))).
Proof.
  unfold step. destruct (handle w b e) as [b1 rq].
  destruct (effectRuns b b1 e).
  - destruct (forwardDelta_cases (transcript (session b1)) (lastTranscriptRef b1))
      as [[E H]|E]; rewrite E; simpl;
      rewrite updates_app, updates_platform; simpl; auto.
  - simpl. rewrite updates_platform. constructor.
Qed.

(** C9.  The forwarding effect either calls the callback once, with the
    trimmed part of the transcript past the marker, which is then neither
    empty nor made of white space, and moves the marker to the
    transcript; or it calls nothing and leaves the marker as it is.  So
    no run of the component ever passes a blank string to the callback. *)
Theorem update_never_blank :
  (forall t lastRef : string,
     let newPart := trim (slice (String.length lastRef) t) in
     (forwardDelta t lastRef = ([newPart], t) /\
      newPart <> "" /\ allWhiteSpace newPart = false)
     \/ (forwardDelta t lastRef = ([], lastRef))) /\
  (forall (w : Window) (b : Button) (es : list Event),
     Forall (fun d => d <> "" /\ allWhiteSpace d = false)
            (updates (snd (run w b es)))).
Proof.
  split.
  - intros t lastRef. exact (forwardDelta_cases t lastRef).
  - intros w b es. revert b.
    induction es as [|e es IH]; intros b; simpl; [constructor|].
    pose proof (step_updates w b e) as Hs.
    destruct (step w b e) as [b1 out1].
    specialize (IH b1). destruct (run w b1 es) as [b2 out2].
    simpl in *. rewrite updates_app. apply Forall_app. split; assumption.
Qed.

(** C10.  [stopListening] clears the listening flag and the starting
    flag and keeps the transcript, the message and the recognition
    object; its only request is the native [stop].  The transcript kept
    is what the forwarding effect reads afterwards: with the marker reset
    by the click it forwards the whole trimmed transcript. *)
Theorem stopListening_keeps_transcript (s : Session) :
  let s' := fst (stopListening s) in
  isListening s' = false /\ isStartingRef s' = false /\
  transcript s' = transcript s /\ error s' = error s /\
  recognitionRef s' = recognitionRef s /\
  snd (stopListening s) = (if recognitionRef s then [NativeStop] else []) /\
  forwardDelta (transcript s') ""
  = (if truthy (trim (transcript s))
     then ([trim (transcript s)], transcript s) else ([], "")).
Proof.
  simpl. repeat split.
  unfold forwardDelta. rewrite slice_0.
  destruct (transcript s) as [|c t] eqn:E; [reflexivity|].
  simpl (truthy (String c t) && _). reflexivity.
Qed.










Lemma step_session w b e :
  session (fst (step w b e)) = session (fst (handle w b e)).
Proof.
  unfold step. destruct (handle w b e) as [b1 rq].
  destruct (effectRuns b b1 e); [|reflexivity].
  destruct (forwardDelta _ _); reflexivity.
Qed.





End ToggleFacts.

(* ------------------------------------------------------------------ *)
(** ** Forwarding of the transcript *)

Section ForwardingFacts.
Import JS useSpeechRecognition VoiceInputButton.

Lemma inert_handle (w : Window) (b : Button) (e : Event) :
  isSupported w = false -> inert b ->
  session (fst (handle w b e)) = session b /\ snd (handle w b e) = [].
Proof.
  intros Hw [Hr Ht].
  destruct e; simpl; rewrite ?Hw, ?Hr; simpl; auto.
  - destruct (startTimers b) as [|n]; [auto|].
    unfold delayedStart. simpl. rewrite Hr. simpl. auto.
  - destruct (retryTimers b) as [|n]; [auto|].
    unfold retryStart. simpl. rewrite Hr. simpl. auto.
Qed.

Lemma inert_step (w : Window) (b : Button) (e : Event) :
  isSupported w = false -> inert b ->
  inert (fst (step w b e)) /\ updates (snd (step w b e)) = [].
Proof.
  intros Hw Hi. pose proof (inert_handle w b e Hw Hi) as [Hs Hq].
  destruct Hi as [Hr Ht]. unfold step.
  destruct (handle w b e) as [b1 rq]. simpl in Hs, Hq. subst rq.
  unfold inert. rewrite <- Hs in Hr, Ht.
  destruct (effectRuns b b1 e); simpl.
  - rewrite Ht. simpl. auto.
  - auto.
Qed.

(** C5.  When neither constructor is present, after any sequence of
    events the callback has not been called, the first revision of the
    component renders nothing and the second a disabled button: there is
    no control to activate. *)
Theorem no_capability_no_update (w : Window) (es : list Event) :
  isSupported w = false ->
  let b := fst (run w (mounted w) es) in
  updates (snd (run w (mounted w) es)) = [] /\
  renderV1 w b = Nothing /\
  renderV2 w b = ButtonView true (isListening (session b)) /\
  interactive (renderV1 w b) = false /\
  interactive (renderV2 w b) = false.
Proof.
  intros Hw b.
  assert (Hrun : forall es b0, inert b0 ->
            updates (snd (run w b0 es)) = []).
  { clear b es. induction es as [|e es IH]; intros b0 Hi; simpl; [reflexivity|].
    destruct (inert_step w b0 e Hw Hi) as [Hi1 Hu].
    destruct (step w b0 e) as [b1 out1]. simpl in Hi1, Hu.
    specialize (IH b1 Hi1). destruct (run w b1 es) as [b2 out2].
    simpl in *. rewrite updates_app, Hu, IH. reflexivity. }
  split.
  - apply Hrun. unfold mounted, mount. rewrite Hw. split; reflexivity.
  - unfold renderV1, renderV2. rewrite Hw. simpl. auto.
Qed.

(** A page with neither constructor, under clicks, results and timers. *)
Lemma no_capability_no_update_witness :
  let w := mkWindow false false in
  let es := [Click; finalized "Hello"; CallbackChanged; StartTimerFires None] in
  isSupported w = false /\
  updates (snd (run w (mounted w) es)) = [] /\
  renderV1 w (fst (run w (mounted w) es)) = Nothing.
Proof.
  split; [reflexivity|].
  pose proof (no_capability_no_update (mkWindow false false)
    [Click; finalized "Hello"; CallbackChanged; StartTimerFires None]
    eq_refl) as H.
  split; [exact (proj1 H) | exact (proj1 (proj2 H))].
Defined.

Lemma step_result (w : Window) (b : Button) (ev : ResultEvent) :
  inStep b ->
  inStep (fst (step w b (RecResult ev))) /\
  updates (snd (step w b (RecResult ev))) = deliveredBy ev.
Proof.
  intros (Hr & Ht & Hm). unfold step, deliveredBy. simpl.
  rewrite Hr. unfold withSession, armed, onResult. simpl.
  destruct (finalTranscriptOf ev) as [ft has].
  destruct (has && truthy (trim ft)) eqn:E; simpl.
  - apply andb_true_iff in E as [_ E]. apply truthy_true in E.
    destruct (append_then_slice (transcript (session b)) ft Ht E)
      as (T1 & T2 & T3 & T4).
    change (" " ++ ft) with (String " " ft) in *.
    set (t' := trim (transcript (session b) ++ String " " ft)) in *.
    unfold effectRuns. simpl.
    assert (N1 : String.eqb (transcript (session b)) t' = false).
    { apply String.eqb_neq. congruence. }
    rewrite N1. simpl. unfold forwardDelta.
    assert (N2 : String.eqb t' (lastTranscriptRef b) = false).
    { apply String.eqb_neq. congruence. }
    rewrite N2. apply truthy_true in T3. rewrite T3. simpl.
    rewrite Hm, T4. apply truthy_true in E. rewrite E. simpl.
    repeat split; assumption || reflexivity.
  - unfold effectRuns. simpl. rewrite String.eqb_refl. simpl.
    repeat split; assumption.
Qed.

Lemma trim_space_end (f : string) : trim (f ++ " ") = trim f.
Proof.
  unfold trim. f_equal.
  induction f as [|c f IH]; [reflexivity|].
  change (String c f ++ " ") with (String c (f ++ " ")).
  simpl. rewrite IH. reflexivity.
Qed.

Lemma deliveredBy_one (fragment : string) :
  deliveredBy (mkResultEvent 0 [mkResult true fragment])
  = if truthy (trim fragment) then [trim fragment] else [].
Proof.
  unfold deliveredBy, finalTranscriptOf. simpl.
  change ("" ++ fragment ++ " ") with (fragment ++ " ").
  rewrite trim_space_end. reflexivity.
Qed.

(** C2, as amended.  While no click intervenes and the marker has caught
    up with the transcript (as when a session has just started, both
    being empty), for every sequence of result events the callback
    receives, in order and once each, the trimmed finalized text of each
    event that has any; with one fragment per event these are the
    trimmed fragments that are not blank. *)
Theorem results_forwarded_once_each (w : Window) (b : Button)
    (evs : list ResultEvent) :
  recognitionRef (session b) = true ->
  trim (transcript (session b)) = transcript (session b) ->
  lastTranscriptRef b = transcript (session b) ->
  updates (snd (run w b (map RecResult evs))) = flat_map deliveredBy evs /\
  (forall fragments : list string,
     updates (snd (run w b (map finalized fragments)))
     = filter truthy (map trim fragments)).
Proof.
  intros Hr Ht Hm.
  assert (Hrun : forall evs b0, inStep b0 ->
            updates (snd (run w b0 (map RecResult evs)))
            = flat_map deliveredBy evs).
  { clear. induction evs as [|ev evs IH]; intros b0 Hi; simpl; [reflexivity|].
    destruct (step_result w b0 ev Hi) as [Hi1 Hu].
    destruct (step w b0 (RecResult ev)) as [b1 out1]. simpl in Hi1, Hu.
    specialize (IH b1 Hi1). destruct (run w b1 (map RecResult evs)).
    simpl in *. rewrite updates_app, Hu, IH. reflexivity. }
  assert (Hi : inStep b) by (repeat split; assumption).
  split; [apply Hrun; exact Hi|].
  intros fragments.
  replace (map finalized fragments)
    with (map RecResult
            (map (fun f => mkResultEvent 0 [mkResult true f]) fragments))
    by (rewrite map_map; reflexivity).
  rewrite (Hrun _ b Hi). clear.
  induction fragments as [|f fs IH]; [reflexivity|].
  cbn [map flat_map filter]. rewrite deliveredBy_one, IH.
  destruct (truthy (trim f)); reflexivity.
Qed.

(** Three fragments, one of them blank, in a session that has just
    started. *)
Lemma results_forwarded_once_each_witness :
  let w := mkWindow true false in
  lastTranscriptRef (started w) = transcript (session (started w)) /\
  updates (snd (run w (started w) (map finalized ["Hello"; "   "; " world"])))
  = ["Hello"; "world"].
Proof.
  split; [reflexivity|].
  exact (proj2 (results_forwarded_once_each (mkWindow true false)
                  (started (mkWindow true false)) []
                  eq_refl eq_refl eq_refl)
               ["Hello"; "   "; " world"]).
Defined.

(** C2, counterexample.  The fragments "Hello" and " world" reach the
    callback as "Hello" and "world": what it received does not
    concatenate to the concatenation of the fragments. *)
Lemma fragment_white_space_not_forwarded :
  let w := mkWindow true false in
  let fragments := ["Hello"; " world"] in
  let received := updates (snd (run w (started w) (map finalized fragments))) in
  received = ["Hello"; "world"] /\
  String.concat "" received <> String.concat "" fragments.
Proof.
  split; [reflexivity|]. vm_compute. discriminate.
Qed.

(** Both revisions of the component offer a control to activate in the
    same situations: when the capability is present. *)
Lemma interactive_both_revisions (w : Window) (b : Button) :
  interactive (renderV1 w b) = isSupported w /\
  interactive (renderV2 w b) = isSupported w.
Proof. unfold renderV1, renderV2. destruct (isSupported w); split; reflexivity. Qed.

(** Every click that reaches [handleClick] empties the marker and keeps
    the transcript. *)
Lemma handleClick_resets_marker (b : Button) :
  lastTranscriptRef (fst (handleClick b)) = "" /\
  transcript (session (fst (handleClick b))) = transcript (session b).
Proof.
  unfold handleClick, stopListening, startListening.
  destruct (isListening (session b)); simpl; [auto|].
  destruct (negb (recognitionRef (session b))); simpl; [auto|].
  destruct (isStartingRef (session b) || false); simpl; auto.
Qed.

(** C4.  A session forwards "Hello"; the click that stops it empties the
    marker while the transcript is kept; the finalized result that the
    stopped recognizer still delivers is then forwarded together with
    the text already sent: the callback receives "Hello world". *)
Theorem stop_click_then_result_resends :
  let w := mkWindow true false in
  let '(b1, out1) := run w (started w) [finalized "Hello"] in
  let '(b2, out2) := step w b1 Click in
  let '(b3, out3) := step w b2 (finalized "world") in
  updates out1 = ["Hello"] /\
  lastTranscriptRef b1 = "Hello" /\
  lastTranscriptRef b2 = "" /\ transcript (session b2) = "Hello" /\
  out2 = [Platform NativeStop] /\
  updates out3 = ["Hello world"].
Proof. vm_compute. repeat split. Qed.

End ForwardingFacts.

(* ------------------------------------------------------------------ *)
(** ** The position of the button *)

Section PositioningFacts.
Import Positioning.

Variable num : Type.
Variables sub add : num -> num -> num.
Variable ofNat : nat -> num.
Variable toString : num -> string.

Let Dom := Dom num.
Let Position := Position num.
Let resolve : Dom -> option Position := resolve num sub add ofNat.
Let step : option Position -> Dom -> option Position :=
  findWrapperAndPositionButton num sub add ofNat.
Let attempts : list Dom -> option Position := attempts num sub add ofNat.
Let positionStyle : option Position -> string * string :=
  positionStyle num toString.

Lemma attempts_all_fail (ds : list Dom) (bp : option Position) :
  Forall (fun d => resolve d = None) ds -> fold_left step ds bp = bp.
Proof.
  intros H. revert bp. induction H as [|d ds Hd _ IH]; intros bp; simpl.
  - reflexivity.
  - rewrite IH. unfold step, findWrapperAndPositionButton.
    fold (resolve d). now rewrite Hd.
Qed.

Lemma attempts_last_success (before after : list Dom) (d : Dom) (p : Position)
    (bp : option Position) :
  resolve d = Some p -> Forall (fun d' => resolve d' = None) after ->
  fold_left step (before ++ d :: after) bp = Some p.
Proof.
  intros Hd Hafter. rewrite fold_left_app. simpl.
  rewrite attempts_all_fail by exact Hafter.
  unfold step, findWrapperAndPositionButton. fold (resolve d). now rewrite Hd.
Qed.

Lemma attempts_stay (ds : list Dom) (bp : option Position) :
  bp <> None -> exists q, fold_left step ds bp = Some q.
Proof.
  revert bp. induction ds as [|d ds IH]; intros bp H; simpl.
  - destruct bp as [q|]; [now exists q | congruence].
  - apply IH. unfold step, findWrapperAndPositionButton.
    destruct (Positioning.resolve num sub add ofNat d); [discriminate | exact H].
Qed.

(** C7.  As long as every resolution attempt fails the position stays
    absent and the style is the default, right 210px and bottom 32px.
    Once an attempt has succeeded the position is present: it is the
    offset computed by the latest successful attempt, and the style is
    that offset in pixels. *)
Theorem position_default_until_resolved (ds : list Dom) :
  (Forall (fun d => resolve d = None) ds ->
     attempts ds = None /\ positionStyle (attempts ds) = ("210px", "32px")) /\
  (forall (before after : list Dom) (d : Dom) (p : Position),
     ds = (before ++ d :: after)%list ->
     resolve d = Some p ->
     Forall (fun d' => resolve d' = None) after ->
     attempts ds = Some p /\
     positionStyle (attempts ds)
     = (toString (right num p) ++ "px", toString (bottom num p) ++ "px")) /\
  (Exists (fun d => resolve d <> None) ds -> attempts ds <> None).
Proof.
  split; [|split].
  - intros H.
    assert (E : attempts ds = None) by (apply attempts_all_fail; exact H).
    rewrite E. split; reflexivity.
  - intros before after d p -> Hd Hafter.
    assert (E : attempts (before ++ d :: after) = Some p)
      by (apply attempts_last_success; assumption).
    rewrite E. split; reflexivity.
  - intros H.
    enough (G : forall bp, fold_left step ds bp <> None) by apply G.
    induction ds as [|d ds' IH]; intros bp; [inversion H|].
    change (fold_left step ds' (step bp d) <> None).
    destruct (resolve d) as [p|] eqn:Hd.
    + destruct (attempts_stay ds' (step bp d)) as [q Hq].
      * unfold step, findWrapperAndPositionButton. fold (resolve d).
        rewrite Hd. discriminate.
      * rewrite Hq. discriminate.
    + apply IH. inversion H as [? ? H0|? ? H0]; subst; [congruence | exact H0].
Qed.

End PositioningFacts.

(** Two failed attempts leave the default; a success at (210, 42)
    followed by a failure keeps the computed offset. *)
Lemma position_default_until_resolved_witness :
  Positioning.positionStyle nat showNat
    (Positioning.attempts nat Nat.sub Nat.add (fun n => n) [emptyPage; emptyPage])
  = ("210px", "32px") /\
  Positioning.positionStyle nat showNat
    (Positioning.attempts nat Nat.sub Nat.add (fun n => n)
       [emptyPage; resolvedPage; emptyPage])
  = ("210px", "42px").
Proof.
  pose proof (position_default_until_resolved nat Nat.sub Nat.add (fun n => n)
                showNat [emptyPage; emptyPage]) as [H1 _].
  pose proof (position_default_until_resolved nat Nat.sub Nat.add (fun n => n)
                showNat [emptyPage; resolvedPage; emptyPage]) as [_ [H2 _]].
  split.
  - apply H1. repeat constructor.
  - refine (proj2 (H2 [emptyPage] [emptyPage] resolvedPage
                      (Positioning.mkPosition nat 210 42) eq_refl eq_refl _)).
    repeat constructor.
Defined.

(* ------------------------------------------------------------------ *)
(** ** More on the dedup patch: what the callback commits and writes *)

Section DictationCallback.
Import JS DictationPatch.

Lemma orElse_truthy (a b : string) : a <> "" -> orElse a b = a.
Proof. intros H. unfold orElse. apply truthy_true in H. now rewrite H. Qed.

Lemma app_nonempty (a b : string) : a <> "" -> a ++ b <> "".
Proof. destruct a; [congruence | discriminate]. Qed.

(** Reading back what the callback has stored. *)
Lemma readValue_writeValue (t : Target) (cleanValue : string) :
  plain t -> cleanValue <> "" -> readValue (writeValue t cleanValue) = cleanValue.
Proof.
  intros Hp Hc. unfold writeValue, readValue.
  destruct (isField t) eqn:F; simpl.
  - now apply orElse_truthy.
  - destruct Hp as [Hp|Hp]; [congruence|]. rewrite Hp.
    unfold orElse at 1. simpl. now apply orElse_truthy.
Qed.

Lemma ignored_writeValue (t : Target) (cleanValue : string) :
  ignored (Some (writeValue t cleanValue)) = ignored (Some t).
Proof.
  unfold writeValue. destruct (isField t) eqn:F; unfold ignored, isField in *;
    simpl; reflexivity.
Qed.

(** What the target reads after a write is as long as what was stored,
    when that is as long as what it read before. *)
Lemma length_read_after_write (t : Target) (cleanValue : string) :
  cleanValue <> "" ->
  String.length cleanValue = String.length (readValue t) ->
  String.length (readValue (writeValue t cleanValue)) = String.length cleanValue.
Proof.
  intros Hc Hl. unfold writeValue.
  destruct (isField t) eqn:F.
  - unfold readValue. simpl. now rewrite orElse_truthy.
  - unfold readValue in *. simpl.
    destruct (value t) as [u|].
    + unfold orElse at 1. unfold orElse at 1 in Hl.
      destruct (truthy u); [now symmetry | now rewrite orElse_truthy].
    + unfold orElse at 1. simpl. now rewrite orElse_truthy.
Qed.

Lemma debounced_commit (st : Patch) (t : Target) :
  plain t ->
  let '(st', t', _) := debounced st t in
  lastInputValue st' = readValue t'.
Proof.
  intros Hp. unfold debounced.
  destruct (truthy (lastInputValue st)
            && (String.length (lastInputValue st) <? String.length (readValue t)))
    eqn:G; [|reflexivity].
  destruct (duplicated _ _); [|reflexivity].
  apply andb_true_iff in G as [G _]. apply truthy_true in G.
  simpl. symmetry.
  apply readValue_writeValue; [exact Hp | now apply app_nonempty].
Qed.

Lemma debounced_timer (st : Patch) (t : Target) :
  let '(st', _, n) := debounced st t in
  debounceTimer st' = (0 <? n) && negb (ignored (Some t)).
Proof.
  unfold debounced.
  destruct (_ && _); [|reflexivity].
  destruct (duplicated _ _); [|reflexivity].
  cbv zeta. unfold handleInput. rewrite ignored_writeValue.
  now destruct (ignored (Some t)).
Qed.

(** The callback run again on what it has left: nothing to do. *)
Lemma debounced_again (st : Patch) (t : Target) :
  let '(st', t', _) := debounced st t in
  debounced st' t' = (mkPatch (readValue t') false, t', 0).
Proof.
  unfold debounced at 1.
  destruct (truthy (lastInputValue st)
            && (String.length (lastInputValue st) <? String.length (readValue t)))
    eqn:G.
  2:{ unfold debounced. simpl. now rewrite Nat.ltb_irrefl, andb_false_r. }
  destruct (duplicated _ _).
  2:{ unfold debounced. simpl. now rewrite Nat.ltb_irrefl, andb_false_r. }
  apply andb_true_iff in G as [G L]. apply truthy_true in G.
  apply Nat.ltb_lt in L. cbv zeta.
  set (c := lastInputValue st
            ++ slice (String.length (lastInputValue st)) (readValue t)).
  assert (Hl : String.length c = String.length (readValue t)).
  { subst c. rewrite length_app, length_slice. lia. }
  pose proof (length_read_after_write t c (app_nonempty _ _ G) Hl) as R.
  unfold debounced. simpl. rewrite R, Nat.ltb_irrefl, andb_false_r. reflexivity.
Qed.

(** X1.  After the callback has run, [lastInputValue] is what the target
    reads, whichever branch was taken; a timer is pending then exactly
    when the callback has dispatched its synthetic event and the target
    passes the guard of [handleInput]. *)
Theorem debounced_commits_what_the_field_reads (st : Patch) (t : Target) :
  plain t ->
  let '(st', t', n) := debounced st t in
  lastInputValue st' = readValue t' /\
  debounceTimer st' = (0 <? n) && negb (ignored (Some t)).
Proof.
  intros Hp.
  pose proof (debounced_commit st t Hp) as H1.
  pose proof (debounced_timer st t) as H2.
  destruct (debounced st t) as [[st' t'] n]. split; assumption.
Qed.

(** A content-editable element holding dictated text: the echo is
    detected, so a timer is pending after the callback. *)
Lemma debounced_commits_what_the_field_reads_witness :
  let t := mkTarget "DIV" "true" None "BonjourBonjour" "BonjourBonjour" in
  plain t /\
  lastInputValue (fst (fst (debounced (mkPatch "Bonjour" true) t)))
  = readValue (snd (fst (debounced (mkPatch "Bonjour" true) t))) /\
  debounceTimer (fst (fst (debounced (mkPatch "Bonjour" true) t))) = true.
Proof.
  split; [right; reflexivity|].
  exact (debounced_commits_what_the_field_reads
           (mkPatch "Bonjour" true)
           (mkTarget "DIV" "true" None "BonjourBonjour" "BonjourBonjour")
           (or_intror eq_refl)).
Defined.



(** Two callbacks leave no timer pending, so that a longer quiet period
    changes nothing. *)
Lemma settle_stable (fuel : nat) (st : Patch) (t : Target) :
  settle (2 + fuel) st t = settle 2 st t /\
  debounceTimer (fst (fst (settle 2 st t))) = false.
Proof.
  simpl. destruct (debounceTimer st) eqn:D; [|split; [reflexivity | exact D]].
  pose proof (debounced_again st t) as A.
  destruct (debounced st t) as [[st1 t1] n1].
  destruct (debounceTimer st1) eqn:D1.
  - rewrite A. simpl. destruct fuel; split; reflexivity.
  - simpl. destruct fuel; split; try reflexivity; exact D1.
Qed.

(** After an accepted event the quiet period ends on what the first
    callback has left. *)
Lemma settle_pending (st : Patch) (t : Target) :
  plain t -> debounceTimer st = true ->
  let '(st1, t1, n1) := debounced st t in
  settle 2 st t = (mkPatch (lastInputValue st1) false, t1, n1).
Proof.
  intros Hp D. simpl. rewrite D.
  pose proof (debounced_commit st t Hp) as C.
  pose proof (debounced_again st t) as A.
  pose proof (debounced_timer st t) as T.
  destruct (debounced st t) as [[st1 t1] n1].
  destruct (debounceTimer st1) eqn:D1.
  - rewrite A, C. simpl. now rewrite Nat.add_0_r.
  - destruct st1 as [l d]. simpl in *. subst d. now rewrite Nat.add_0_r.
Qed.

Lemma debounced_text_cases (st : Patch) (t : Target) :
  plain t ->
  let p := lastInputValue st in
  let v := readValue t in
  let t' := snd (fst (debounced st t)) in
  (readValue t' <> v <->
     p <> "" /\ String.length p < String.length v /\
     prefix p v = false /\
     duplicated (slice (String.length p) v) v = true) /\
  (readValue t' <> v -> readValue t' = p ++ slice (String.length p) v).
Proof.
  intros Hp p v t'. subst p v t'. unfold debounced.
  destruct (truthy (lastInputValue st)) eqn:T; simpl.
  2:{ apply truthy_false in T.
      split; [split|]; intros H; [now contradiction H | | now contradiction H].
      destruct H as [H _]. contradiction. }
  apply truthy_true in T.
  destruct (String.length (lastInputValue st) <? String.length (readValue t))
    eqn:L; simpl.
  2:{ apply Nat.ltb_ge in L.
      split; [split|]; intros H; [now contradiction H | | now contradiction H].
      destruct H as (_ & H & _). lia. }
  apply Nat.ltb_lt in L.
  destruct (duplicated _ _) eqn:D; simpl.
  2:{ split; [split|]; intros H; [now contradiction H | | now contradiction H].
      destruct H as (_ & _ & _ & H). discriminate. }
  rewrite readValue_writeValue by (assumption || now apply app_nonempty).
  split; [split|]; intros H.
  - repeat split; try assumption.
    destruct (prefix (lastInputValue st) (readValue t)) eqn:P; [|reflexivity].
    exfalso. apply H. now apply prefix_slice.
  - destruct H as (_ & _ & P & _). intros E.
    rewrite <- E, prefix_app in P. discriminate.
  - reflexivity.
Qed.



(** C8, as amended.  When the duplicate test fires on a committed
    value [p] that is not empty and a longer current value [v], the
    callback stores [p ++ v.slice(|p|)] and the target reads that value
    afterwards: it is as long as [v], starts with [p] and agrees with
    [v] past the first [|p|] code units; whenever [p] is a prefix of [v]
    it is [v] itself, and the text of the target is as it was. *)
Theorem dedup_write_rebuilds_value (p : string) (target : Target)
    (pending : bool) :
  plain target ->
  p <> "" ->
  String.length p < String.length (readValue target) ->
  duplicated (slice (String.length p) (readValue target)) (readValue target)
  = true ->
  let v := readValue target in
  let written := p ++ slice (String.length p) v in
  let '(st', target', n) := debounced (mkPatch p pending) target in
  target' = writeValue target written /\ n = 1 /\
  lastInputValue st' = written /\
  readValue target' = written /\
  String.length (readValue target') = String.length v /\
  prefix p (readValue target') = true /\
  slice (String.length p) (readValue target') = slice (String.length p) v /\
  (prefix p v = true -> readValue target' = v).
Proof.
  intros Hpl Hp Hlen Hdup v written. subst v written.
  unfold debounced; simpl.
  pose proof Hp as Ht. apply truthy_true in Ht. rewrite Ht.
  pose proof Hlen as Hl. apply Nat.ltb_lt in Hl. rewrite Hl. simpl.
  rewrite Hdup.
  rewrite readValue_writeValue by (assumption || now apply app_nonempty).
  repeat split.
  - rewrite length_app, length_slice. lia.
  - apply prefix_app.
  - apply slice_app.
  - apply prefix_slice.
Qed.

(** The write on the echoed "Bonjour": the field reads what it read. *)
Lemma dedup_write_rebuilds_value_witness :
  let target := fieldHolding "BonjourBonjour" in
  plain target /\ "Bonjour" <> "" /\
  readValue (snd (fst (debounced (mkPatch "Bonjour" true) target)))
  = "BonjourBonjour".
Proof.
  split; [left; reflexivity|]. split; [discriminate|].
  refine (proj1 (proj2 (proj2 (proj2
            (dedup_write_rebuilds_value "Bonjour"
               (fieldHolding "BonjourBonjour") true
               (or_introl eq_refl) _ _ _))))).
  - discriminate.
  - vm_compute. lia.
  - reflexivity.
Defined.

(** C8, counterexample.  With "xb " committed and the field holding
    "ab ab", the committed value is not empty and shorter, the duplicate
    test fires, and the field reads "xb ab" afterwards: the write has
    taken the first "a" away from the field. *)
Lemma dedup_write_overwrites_head :
  let target := fieldHolding "ab ab" in
  let target' := snd (fst (debounced (mkPatch "xb " true) target)) in
  "xb " <> "" /\
  String.length "xb " < String.length (readValue target) /\
  duplicated (slice (String.length "xb ") (readValue target)) (readValue target)
  = true /\
  readValue target = "ab ab" /\
  readValue target' = "xb ab" /\
  prefix "a" (readValue target) = true /\ prefix "a" (readValue target') = false.
Proof.
  vm_compute. repeat split; try discriminate. lia.
Qed.

Lemma typed_field (t : Target) (v : string) :
  isField t = true -> v <> "" ->
  isField (typed t v) = true /\ readValue (typed t v) = v.
Proof.
  intros F Hv. unfold typed. rewrite F. split; [exact F|].
  unfold readValue. simpl. now apply orElse_truthy.
Qed.

Lemma isField_debounced (st : Patch) (t : Target) :
  isField (snd (fst (debounced st t))) = isField t.
Proof.
  unfold debounced.
  destruct (_ && _); [|reflexivity].
  destruct (duplicated _ _); [|reflexivity].
  simpl. unfold writeValue. now destruct (isField t) eqn:F.
Qed.

Lemma typing_extending (vs : list string) : forall (st : Patch) (t : Target),
  isField t = true -> extending (lastInputValue st) vs ->
  let '(st', t') := typing st t vs in
  isField t' = true /\
  (vs <> [] -> readValue t' = last vs "" /\ lastInputValue st' = last vs "").
Proof.
  induction vs as [|v vs IH]; intros st t F H.
  - simpl. split; [exact F | congruence].
  - destruct H as (Hv & Hpre & Hrest).
    destruct (typed_field t v F Hv) as [F1 R1].
    cbn [typing]. unfold inputThenQuiet.
    assert (A : handleInput st (Some (typed t v))
                = mkPatch (lastInputValue st) true).
    { unfold handleInput, ignored. now rewrite F1. }
    rewrite A.
    pose proof (settle_pending (mkPatch (lastInputValue st) true) (typed t v)
                  (or_introl F1) eq_refl) as S.
    pose proof (debounced_commit
                  (mkPatch (lastInputValue st) true) (typed t v)
                  (or_introl F1)) as C.
    pose proof (debounced_text_cases
                  (mkPatch (lastInputValue st) true) (typed t v)
                  (or_introl F1)) as [[K _] _].
    pose proof (isField_debounced (mkPatch (lastInputValue st) true) (typed t v))
      as F2.
    destruct (debounced (mkPatch (lastInputValue st) true) (typed t v))
      as [[st1 t1] n]. rewrite S. simpl in C, K, F2.
    rewrite F1 in F2.
    assert (R : readValue t1 = v).
    { destruct (string_dec (readValue t1) (readValue (typed t v))) as [E|E].
      - now rewrite E.
      - apply K in E. destruct E as (_ & _ & E & _).
        rewrite R1, Hpre in E. discriminate. }
    assert (H1 : extending (lastInputValue (mkPatch (lastInputValue st1) false)) vs)
      by (simpl; rewrite C, R; exact Hrest).
    destruct vs as [|v' vs'].
    + simpl. split; [exact F2|]. intros _. now rewrite C, R.
    + specialize (IH (mkPatch (lastInputValue st1) false) t1 F2 H1).
      destruct (typing (mkPatch (lastInputValue st1) false) t1 (v' :: vs'))
        as [st' t']. destruct IH as [IH1 IH2].
      split; [exact IH1|]. intros _. apply IH2. discriminate.
Qed.

(** X4.  Text that only grows is never altered: when each value typed
    into a form field extends the one before, the field holds the last
    value typed after its quiet period, and so does [lastInputValue]. *)
Theorem growing_text_is_left_alone (t : Target) (vs : list string) :
  isField t = true -> extending "" vs -> vs <> [] ->
  let '(st', t') := typing initial t vs in
  readValue t' = last vs "" /\ lastInputValue st' = last vs "".
Proof.
  intros F H Hne.
  pose proof (typing_extending vs initial t F H) as K.
  destruct (typing initial t vs) as [st' t']. now apply K.
Qed.

Lemma growing_text_is_left_alone_witness :
  readValue (snd (typing initial textarea ["Bon"; "Bonjour"; "BonjourBonjour"]))
  = "BonjourBonjour".
Proof.
  refine (proj1 (growing_text_is_left_alone textarea
                   ["Bon"; "Bonjour"; "BonjourBonjour"] eq_refl _ _)).
  - simpl. repeat split; discriminate.
  - discriminate.
Defined.

End DictationCallback.

(* ------------------------------------------------------------------ *)
(** ** Invariants of the recognition session *)

Section SessionInvariants.
Import JS useSpeechRecognition VoiceInputButton.

Ltac coherent_cases s :=
  destruct s as [l t e r st]; unfold coherent, sound; simpl;
  intros (Hs & Hf & He & Ht);
  destruct r, l, st; simpl in *;
  repeat split; auto; try discriminate; try tauto;
  try (destruct Hs as [Hs|[Hs Hs']]; discriminate);
  try (destruct He as [He|He]; discriminate || tauto).

Lemma coherent_onResult ev s : coherent s -> coherent (onResult ev s).
Proof.
  unfold onResult. destruct (finalTranscriptOf ev) as [ft has].
  destruct (has && truthy (trim ft)); [|auto].
  intros (Hs & Hf & He & Ht). unfold coherent, sound in *. simpl.
  repeat split; auto. apply trim_idem.
Qed.

Lemma coherent_onError code s : coherent s -> coherent (onError code s).
Proof.
  unfold onError; cbv zeta.
  destruct (_ || _); [coherent_cases s|].
  destruct (_ || _); coherent_cases s.
Qed.

Lemma coherent_onEnd s : coherent s -> coherent (onEnd s).
Proof. unfold onEnd. coherent_cases s. Qed.

Lemma coherent_startListening s : coherent s -> coherent (fst (startListening s)).
Proof. unfold startListening. coherent_cases s. Qed.

Lemma coherent_stopListening s : coherent s -> coherent (fst (stopListening s)).
Proof. unfold stopListening. coherent_cases s. Qed.

Lemma coherent_delayedStart thrown s :
  coherent s -> coherent (fst (delayedStart thrown s)).
Proof.
  unfold delayedStart, failedToStart.
  destruct thrown as [m|]; [destruct (includes "aborted" (toLowerCase m))|];
    coherent_cases s.
Qed.

Lemma coherent_retryStart thrown s :
  coherent s -> coherent (fst (retryStart thrown s)).
Proof.
  unfold retryStart, failedToStart.
  destruct thrown as [m|]; [destruct (includes "aborted" (toLowerCase m))|];
    coherent_cases s.
Qed.

Lemma coherent_handle w b e :
  coherent (session b) -> coherent (session (fst (handle w b e))).
Proof.
  intros H. destruct e; simpl.
  - destruct (negb (negb (isSupported w))); [|exact H].
    unfold handleClick. destruct (isListening (session b)).
    + pose proof (coherent_stopListening _ H).
      destruct (stopListening (session b)); assumption.
    + pose proof (coherent_startListening _ H).
      destruct (startListening (session b)); assumption.
  - destruct (recognitionRef (session b)); [|exact H].
    now apply coherent_onResult.
  - destruct (recognitionRef (session b)); [|exact H].
    now apply coherent_onError.
  - destruct (recognitionRef (session b)); [|exact H].
    now apply coherent_onEnd.
  - destruct (startTimers b); [exact H|].
    unfold withSession, armed; simpl. now apply coherent_delayedStart.
  - destruct (retryTimers b); [exact H|].
    unfold withSession, armed; simpl. now apply coherent_retryStart.
  - exact H.
Qed.

Lemma coherent_run w es : forall b,
  coherent (session b) -> coherent (session (fst (run w b es))).
Proof.
  induction es as [|e es IH]; intros b H; simpl; [exact H|].
  pose proof (coherent_handle w b e H) as H1. rewrite <- step_session in H1.
  destruct (step w b e) as [b1 out1]. specialize (IH b1 H1).
  destruct (run w b1 es); exact IH.
Qed.

Lemma coherent_mounted w : coherent (session (mounted w)).
Proof.
  unfold mounted, mount, coherent, sound.
  destruct (isSupported w); simpl; repeat split; auto.
Qed.

Lemma coherent_reached w es : coherent (session (fst (run w (mounted w) es))).
Proof. apply coherent_run, coherent_mounted. Qed.

(** X5.  Whatever happens to the mounted component, the starting flag
    and the listening flag have the same value. *)
Theorem starting_flag_follows_listening (w : Window) (es : list Event) :
  let s := session (fst (run w (mounted w) es)) in
  isStartingRef s = isListening s.
Proof. exact (proj1 (proj2 (coherent_reached w es))). Qed.

(** X6.  Whatever happens to the mounted component, no error message is
    held while the session is listening. *)
Theorem no_message_while_listening (w : Window) (es : list Event) :
  let s := session (fst (run w (mounted w) es)) in
  isListening s = false \/ error s = None.
Proof. exact (proj1 (proj2 (proj2 (coherent_reached w es)))). Qed.

(** X7.  Whatever happens to the mounted component, the transcript has
    no white space at either end. *)
Theorem transcript_stays_trimmed (w : Window) (es : list Event) :
  let s := session (fst (run w (mounted w) es)) in
  trim (transcript s) = transcript s.
Proof. exact (proj2 (proj2 (proj2 (coherent_reached w es)))). Qed.

Lemma trim_append_extends (t g : string) :
  trim t = t -> trim g <> "" -> prefix t (trim (t ++ " " ++ g)) = true.
Proof.
  intros Ht Hg.
  destruct (string_dec t "") as [->|Hne].
  { generalize (trim ("" ++ " " ++ g)). intros [|c r]; reflexivity. }
  pose proof (trim_nonempty_trimEnd g Hg) as Hge.
  assert (Hsp : trimEnd (" " ++ g) = " " ++ trimEnd g)
    by (apply trimEnd_app; exact Hge).
  unfold trim at 1.
  rewrite (trimEnd_app t (" " ++ g)) by (rewrite Hsp; discriminate).
  rewrite trimStart_app by (assumption || now apply trim_fixed_start).
  apply prefix_app.
Qed.

(** X8.  In every state the component reaches, a result event only adds
    to the transcript: the transcript before it is a prefix of the
    transcript after it. *)
Theorem result_extends_transcript (w : Window) (es : list Event)
    (ev : ResultEvent) :
  let s := session (fst (run w (mounted w) es)) in
  prefix (transcript s) (transcript (onResult ev s)) = true.
Proof.
  intros s.
  pose proof (proj2 (proj2 (proj2 (coherent_reached w es)))) as Ht.
  fold s in Ht. unfold onResult.
  destruct (finalTranscriptOf ev) as [ft has].
  destruct (has && truthy (trim ft)) eqn:E; [|apply prefix_refl].
  apply andb_true_iff in E as [_ E]. apply truthy_true in E.
  simpl. now apply trim_append_extends.
Qed.

Lemma scanResults_interim (rs : list Result) (ft : string) (has : bool) :
  Forall (fun r => isFinal r = false) rs -> scanResults rs ft has = (ft, has).
Proof.
  intros H. induction H as [|r rs Hr _ IH]; simpl; [reflexivity|].
  now rewrite Hr.
Qed.

(** X9.  A result event none of whose entries from [resultIndex] on is
    final (interim results only, or an index past the end) leaves the
    session as it is. *)
Theorem interim_results_change_nothing (ev : ResultEvent) (s : Session) :
  Forall (fun r => isFinal r = false) (skipn (resultIndex ev) (results ev)) ->
  onResult ev s = s.
Proof.
  intros H. unfold onResult, finalTranscriptOf.
  now rewrite (scanResults_interim _ "" false H).
Qed.

Lemma interim_results_change_nothing_witness :
  let s := mkSession true "Hello" None true true in
  onResult (mkResultEvent 1 [mkResult true "Hello"; mkResult false "wor"]) s = s
  /\ onResult (mkResultEvent 5 [mkResult true "Hello"]) s = s.
Proof.
  split.
  - apply (interim_results_change_nothing
             (mkResultEvent 1 [mkResult true "Hello"; mkResult false "wor"])).
    simpl. repeat constructor.
  - apply (interim_results_change_nothing
             (mkResultEvent 5 [mkResult true "Hello"])).
    simpl. constructor.
Defined.

End SessionInvariants.

(* ------------------------------------------------------------------ *)
(** ** Starting, retrying and restarting *)

Section StartFacts.
Import JS useSpeechRecognition VoiceInputButton.

(** X10.  When the native [start] throws an "aborted" error in the
    delayed start, the session is left marked as starting and listening
    and a retry is armed; if that retry fires before anything has reset
    the session, it does nothing: no native call, no change of state. *)
Theorem retry_without_reset_does_nothing (s : Session)
    (errorMessage : string) (thrown : option string) :
  recognitionRef s = true -> isStartingRef s = false ->
  includes "aborted" (toLowerCase errorMessage) = true ->
  let s1 := fst (delayedStart (Some errorMessage) s) in
  snd (delayedStart (Some errorMessage) s) = [NativeStart; ArmRetry] /\
  isListening s1 = true /\ isStartingRef s1 = true /\ error s1 = None /\
  retryStart thrown s1 = (s1, []).
Proof.
  intros Hr Hs Ha. unfold delayedStart. rewrite Hr, Hs, Ha. simpl.
  repeat split. unfold retryStart. simpl. now rewrite andb_false_r.
Qed.

Lemma retry_without_reset_does_nothing_witness :
  let s := mkSession false "old" (Some "earlier") true false in
  let s1 := mkSession true "" None true true in
  delayedStart (Some "InvalidStateError: recognition Aborted") s
  = (s1, [NativeStart; ArmRetry]) /\
  retryStart None s1 = (s1, []).
Proof.
  split; [reflexivity|].
  exact (proj2 (proj2 (proj2 (proj2
    (retry_without_reset_does_nothing
       (mkSession false "old" (Some "earlier") true false)
       "InvalidStateError: recognition Aborted" None
       eq_refl eq_refl eq_refl))))).
Defined.

(** X11.  An error event, the end of the recognition and a stop all
    leave the session ready for a new start: [startListening] then
    passes its guard, asks for the native [stop] and arms the delayed
    start, without touching the session. *)
Theorem reset_allows_restart (s : Session) (code : string) :
  recognitionRef s = true ->
  startListening (onError code s) = (onError code s, [NativeStop; ArmStart]) /\
  startListening (onEnd s) = (onEnd s, [NativeStop; ArmStart]) /\
  startListening (fst (stopListening s))
  = (fst (stopListening s), [NativeStop; ArmStart]).
Proof.
  intros Hr. unfold startListening, onError, onEnd, stopListening; cbv zeta.
  destruct (_ || _); [|destruct (_ || _)]; simpl; rewrite Hr; simpl; auto.
Qed.

Lemma reset_allows_restart_witness :
  let s := mkSession true "Hello" None true true in
  startListening (onError "network" s)
  = (mkSession false "Hello" (Some "Speech recognition error: network") true false,
     [NativeStop; ArmStart]).
Proof.
  exact (proj1 (reset_allows_restart (mkSession true "Hello" None true true)
                  "network" eq_refl)).
Defined.

Lemma slice_past_end (n : nat) (s : string) :
  String.length s <= n -> slice n s = "".
Proof.
  revert s. induction n as [|n IH]; intros [|c s] H; simpl in *;
    try reflexivity; [lia | apply IH; lia].
Qed.

(** X12.  When the marker is at least as long as the transcript, the
    forwarding effect forwards nothing and leaves the marker: text that
    a transcript shorter than the marker holds is not delivered. *)
Theorem stale_marker_forwards_nothing (t lastRef : string) :
  String.length t <= String.length lastRef ->
  forwardDelta t lastRef = ([], lastRef).
Proof.
  intros H. unfold forwardDelta.
  destruct (truthy t && negb (String.eqb t lastRef)); [|reflexivity].
  now rewrite (slice_past_end _ _ H).
Qed.

Lemma stale_marker_forwards_nothing_witness :
  forwardDelta "abc" "Hello world" = ([], "Hello world").
Proof.
  apply (stale_marker_forwards_nothing "abc" "Hello world").
  simpl. lia.
Defined.

Lemma run_results_inStep (w : Window) (evs : list ResultEvent) : forall b,
  inStep b ->
  updates (snd (run w b (map RecResult evs))) = flat_map deliveredBy evs.
Proof.
  induction evs as [|ev evs IH]; intros b Hi; simpl; [reflexivity|].
  destruct (step_result w b ev Hi) as [Hi1 Hu].
  destruct (step w b (RecResult ev)) as [b1 out1]. simpl in Hi1, Hu.
  specialize (IH b1 Hi1). destruct (run w b1 (map RecResult evs)).
  simpl in *. rewrite updates_app, Hu, IH. reflexivity.
Qed.

Lemma run_fragments_inStep (w : Window) (b : Button) (fragments : list string) :
  inStep b ->
  updates (snd (run w b (map finalized fragments)))
  = filter truthy (map trim fragments).
Proof.
  intros Hi.
  replace (map finalized fragments)
    with (map RecResult
            (map (fun f => mkResultEvent 0 [mkResult true f]) fragments))
    by (rewrite map_map; reflexivity).
  rewrite (run_results_inStep w _ b Hi).
  induction fragments as [|f fs IH]; [reflexivity|].
  cbn [map flat_map filter]. rewrite deliveredBy_one, IH.
  destruct (truthy (trim f)); reflexivity.
Qed.

Lemma start_from_idle (w : Window) (b : Button) :
  isSupported w = true -> recognitionRef (session b) = true ->
  isListening (session b) = false -> isStartingRef (session b) = false ->
  let r := run w b [Click; StartTimerFires None] in
  updates (snd r) = [] /\ nativeStarts (snd r) = 1 /\
  session (fst r) = mkSession true "" None true true /\
  lastTranscriptRef (fst r) = "" /\
  startTimers (fst r) = startTimers b.
Proof.
  destruct b as [[l t e r st] m n k]. simpl. intros Hw -> -> ->.
  unfold step, handle. unfold renderV2, interactive. rewrite Hw. simpl.
  unfold effectRuns. simpl. rewrite String.eqb_refl. simpl.
  rewrite Nat.add_1_r. simpl.
  destruct (String.eqb t ""); simpl;
    repeat split; try reflexivity; unfold countArmed; simpl; lia.
Qed.

(** X13.  A click on an idle session followed by the delayed start opens
    a session with an empty transcript and an empty marker, whatever the
    transcript and the marker held before, without calling the callback;
    the fragments finalized from then on are forwarded trimmed, in
    order, once each. *)
Theorem new_session_forwards_only_new_text (w : Window) (b : Button)
    (fragments : list string) :
  isSupported w = true -> recognitionRef (session b) = true ->
  isListening (session b) = false -> isStartingRef (session b) = false ->
  let r := run w b [Click; StartTimerFires None] in
  updates (snd r) = [] /\
  transcript (session (fst r)) = "" /\ lastTranscriptRef (fst r) = "" /\
  isListening (session (fst r)) = true /\
  updates (snd (run w (fst r) (map finalized fragments)))
  = filter truthy (map trim fragments).
Proof.
  intros Hw Hr Hl Hs r.
  destruct (start_from_idle w b Hw Hr Hl Hs) as (U & _ & S & M & _).
  fold r in U, S, M. rewrite S. repeat split; try assumption.
  apply run_fragments_inStep. unfold inStep. rewrite S, M. simpl. auto.
Qed.

Lemma new_session_forwards_only_new_text_witness :
  let w := mkWindow true false in
  let b := mkButton (mkSession false "old text" None true false) "old text" 0 0 in
  updates (snd (run w (fst (run w b [Click; StartTimerFires None]))
                  (map finalized ["one"; " two "])))
  = ["one"; "two"].
Proof.
  exact (proj2 (proj2 (proj2 (proj2
    (new_session_forwards_only_new_text (mkWindow true false)
       (mkButton (mkSession false "old text" None true false) "old text" 0 0)
       ["one"; " two "] eq_refl eq_refl eq_refl eq_refl))))).
Defined.

(** X14.  Two clicks on an idle session before the delayed start has
    run arm two timers; the first to fire starts the recognizer, the
    second finds the starting flag set and does nothing, whatever the
    native [start] would do then: the native [start] is called once. *)
Theorem double_click_starts_once (w : Window) (b : Button)
    (thrown : option string) :
  isSupported w = true -> recognitionRef (session b) = true ->
  isListening (session b) = false -> isStartingRef (session b) = false ->
  let r := run w b [Click; Click; StartTimerFires None; StartTimerFires thrown] in
  nativeStarts (snd r) = 1 /\
  session (fst r) = mkSession true "" None true true /\
  startTimers (fst r) = startTimers b.
Proof.
  destruct b as [[l t e r st] m n k]. simpl. intros Hw -> -> ->.
  unfold step, handle. unfold renderV2, interactive. rewrite Hw. simpl.
  unfold effectRuns. simpl. rewrite String.eqb_refl. simpl.
  rewrite String.eqb_refl. simpl.
  change (countArmed ArmStart [NativeStop; ArmStart]) with 1.
  replace (n + 1 + 1) with (S (S n)) by lia. simpl.
  destruct (String.eqb t ""); simpl;
    repeat split; try reflexivity; unfold countArmed; simpl; lia.
Qed.

Lemma double_click_starts_once_witness :
  let w := mkWindow false true in
  nativeStarts
    (snd (run w (mounted w)
            [Click; Click; StartTimerFires None; StartTimerFires None])) = 1.
Proof.
  exact (proj1 (double_click_starts_once (mkWindow false true)
                  (mounted (mkWindow false true)) None
                  eq_refl eq_refl eq_refl eq_refl)).
Defined.

End StartFacts.

(* ------------------------------------------------------------------ *)
(** ** Echoes, and the two revisions of the result listener *)

Section EchoFacts.
Import JS DictationPatch.

(** X15.  When the text added since the last commit repeats the end of
    the committed value, the duplicate test fires and the callback
    dispatches its synthetic event, but the value it stores is the value
    it has read: the repetition stays in the field. *)
Theorem echo_detected_but_kept (p x : string) (t : Target) (pending : bool) :
  plain t -> x <> "" -> readValue t = (p ++ x) ++ x ->
  debounced (mkPatch (p ++ x) pending) t
  = (mkPatch ((p ++ x) ++ x) (negb (ignored (Some t))),
     writeValue t ((p ++ x) ++ x), 1) /\
  readValue (writeValue t ((p ++ x) ++ x)) = readValue t.
Proof.
  intros Hp Hx Hv.
  assert (Hne : p ++ x <> "").
  { intros E. apply (f_equal String.length) in E.
    rewrite length_app in E. destruct x; [congruence | simpl in E; lia]. }
  split.
  - unfold debounced. simpl. rewrite Hv.
    apply truthy_true in Hne. rewrite Hne.
    assert (L : (String.length (p ++ x) <? String.length ((p ++ x) ++ x)) = true).
    { apply Nat.ltb_lt. rewrite (length_app (p ++ x) x).
      destruct x; [congruence | simpl; lia]. }
    rewrite L. simpl. rewrite slice_app.
    assert (D : duplicated x ((p ++ x) ++ x) = true).
    { unfold duplicated. rewrite app_assoc, includes_app_r. reflexivity. }
    rewrite D. cbv zeta. unfold handleInput. rewrite ignored_writeValue.
    unfold ignored. now destruct (negb (isField t) && _).
  - rewrite Hv. apply readValue_writeValue; [exact Hp|].
    now apply app_nonempty.
Qed.

Lemma echo_detected_but_kept_witness :
  let t := fieldHolding "Hello world world" in
  debounced (mkPatch "Hello world" true) t
  = (mkPatch "Hello world world" true, t, 1).
Proof.
  exact (proj1 (echo_detected_but_kept "Hello" " world"
                  (fieldHolding "Hello world world") true
                  (or_introl eq_refl) ltac:(discriminate) eq_refl)).
Defined.

End EchoFacts.

Section ResultListeners.
Import JS useSpeechRecognition.

Lemma scanResults_none_final (rs : list Result) : forall ft has,
  snd (scanResults rs ft has) = false ->
  fst (scanResults rs ft has) = ft.
Proof.
  induction rs as [|r rs IH]; intros ft has H; simpl in *; [reflexivity|].
  destruct (isFinal r); [|now apply IH].
  exfalso. clear IH. revert H. generalize (ft ++ alternative r ++ " ").
  induction rs as [|r' rs IH]; intros g; simpl; [discriminate|].
  destruct (isFinal r'); apply IH.
Qed.

Lemma trim_append_glued (t g : string) :
  trim t = t -> t <> "" -> trimEnd g <> "" -> trim (t ++ g) = t ++ trimEnd g.
Proof.
  intros Ht Hne Hg. unfold trim. rewrite (trimEnd_app t g Hg).
  apply trimStart_app; [exact Hne | now apply trim_fixed_start].
Qed.

(** X16.  On a transcript that is trimmed and not empty, an event with
    finalized text that is not blank makes the later revision of the
    result listener append one space and the finalized text without its
    trailing white space; the earlier revision appended the same text
    with no space in between. *)
Theorem result_listener_separator (ev : ResultEvent) (s : Session) :
  trim (transcript s) = transcript s -> transcript s <> "" ->
  trim (fst (finalTranscriptOf ev)) <> "" ->
  let finalTranscript := fst (finalTranscriptOf ev) in
  transcript (onResult ev s) = transcript s ++ " " ++ trimEnd finalTranscript /\
  transcript (onResultV1 ev s) = transcript s ++ trimEnd finalTranscript.
Proof.
  intros Ht Hne Hg ft. subst ft.
  pose proof (trim_nonempty_trimEnd _ Hg) as Hge.
  split.
  - unfold onResult.
    pose proof (scanResults_none_final
                  (skipn (resultIndex ev) (results ev)) "" false) as N.
    fold (finalTranscriptOf ev) in N.
    destruct (finalTranscriptOf ev) as [ft has]. simpl in N, Hg, Hge.
    assert (A : trim (transcript s ++ " " ++ ft)
                = transcript s ++ " " ++ trimEnd ft).
    { rewrite trim_append_glued; try assumption.
      - f_equal. apply (trimEnd_app " " ft Hge).
      - rewrite (trimEnd_app " " ft Hge). discriminate. }
    destruct has.
    + apply truthy_true in Hg. simpl. rewrite Hg. exact A.
    + rewrite N in Hg by reflexivity. now contradiction Hg.
  - unfold onResultV1. simpl. now apply trim_append_glued.
Qed.

Lemma result_listener_separator_witness :
  let s := mkSession true "Hello" None true true in
  let ev := mkResultEvent 0 [mkResult true "world"] in
  transcript (onResult ev s) = "Hello world" /\
  transcript (onResultV1 ev s) = "Helloworld".
Proof.
  refine (result_listener_separator
            (mkResultEvent 0 [mkResult true "world"])
            (mkSession true "Hello" None true true) eq_refl _ _);
    discriminate.
Defined.

End ResultListeners.
